(** * steppy.adapter: the recipe resolver of [Adapter]

    A shallow embedding of [src/steppy/adapter.py] and the properties of
    [Adapter.adapt] and [Adapter._construct].

    Python values are modelled as finite trees.  The three mappings that
    [adapt] touches as objects (the stored [adapting_recipes], the supplied
    [all_inputs] and the local [adapted]) live in a heap of dict objects, so
    that what [adapt] allocates and writes is visible.  The result mapping of
    a step is part of the value held by [all_inputs]: what a subscript stores
    in it (a [defaultdict] does, on a missing key) shows there.  The recipes
    are taken to share no object with [all_inputs]. *)

From Stdlib Require Import ZArith.
From stdpp Require Import base decidable option list strings gmap.

(** ** Python values *)

(** The callables a defaulting mapping builds its default with: [int],
    [str], [bool], [list], [dict] and [tuple], called without arguments. *)
Inductive factory :=
  | factory_int
  | factory_str
  | factory_bool
  | factory_list
  | factory_dict
  | factory_tuple.

(** Whether an object's class is the builtin class itself or a proper
    subclass of it.  [Subclass] is a subclass that inherits the builtin's
    behaviour (a named-tuple type, an [OrderedDict], ...).  [Defaulting] is a
    subclass that defines [__missing__]: a [collections.defaultdict] with
    [default_factory], which stores the default it answers with
    ([stores = true]), or a [collections.Counter], which answers [0] and
    stores nothing ([stores = false]).  A [defaultdict] without
    [default_factory] raises [KeyError] as a plain dict does: it is a
    [Subclass].  Only the subscript of a dict consults [__missing__]. *)
Inductive origin :=
  | Builtin
  | Subclass (name : string)
  | Defaulting (name : string) (default_factory : factory) (stores : bool).

(** The named tuple [E]; both fields are declared as [str]. *)
Record E := mk_E { input_name : string; key : string }.

(** The universe of values recipes, inputs and results are made of.
    [VE e] is an instance of class [E] itself.  Dicts keep their entries
    in insertion order. *)
#[warnings="-register-all"]
Inductive value :=
  | VNone
  | VBool (b : bool)
  | VInt (z : Z)
  | VStr (s : string)
  | VE (e : E)
  | VTuple (o : origin) (items : list value)
  | VList (o : origin) (items : list value)
  | VDict (o : origin) (entries : list (value * value)).

(** [__class__] of a value. *)
Inductive pyclass :=
  | cls_NoneType
  | cls_bool
  | cls_int
  | cls_str
  | cls_E
  | cls_tuple
  | cls_list
  | cls_dict
  | cls_sub (base : pyclass) (name : string).

Definition with_origin (base : pyclass) (o : origin) : pyclass :=
  match o with
  | Builtin => base
  | Subclass name | Defaulting name _ _ => cls_sub base name
  end.

(** [default_factory()] *)
Definition call_factory (f : factory) : value :=
  match f with
  | factory_int => VInt 0
  | factory_str => VStr EmptyString
  | factory_bool => VBool false
  | factory_list => VList Builtin []
  | factory_dict => VDict Builtin []
  | factory_tuple => VTuple Builtin []
  end.

Definition class_of (v : value) : pyclass :=
  match v with
  | VNone => cls_NoneType
  | VBool _ => cls_bool
  | VInt _ => cls_int
  | VStr _ => cls_str
  | VE _ => cls_E
  | VTuple o _ => with_origin cls_tuple o
  | VList o _ => with_origin cls_list o
  | VDict o _ => with_origin cls_dict o
  end.

#[global] Instance factory_eq_dec : EqDecision factory.
Proof. solve_decision. Defined.

#[global] Instance origin_eq_dec : EqDecision origin.
Proof. solve_decision. Defined.

#[global] Instance E_eq_dec : EqDecision E.
Proof. solve_decision. Defined.

#[global] Instance pyclass_eq_dec : EqDecision pyclass.
Proof. solve_decision. Defined.

#[global] Instance value_eq_dec : EqDecision value.
Proof.
  refine (fix go (x y : value) {struct x} : Decision (x = y) :=
    match x, y with
    | VNone, VNone => left _
    | VBool a, VBool b => cast_if (decide (a = b))
    | VInt a, VInt b => cast_if (decide (a = b))
    | VStr a, VStr b => cast_if (decide (a = b))
    | VE a, VE b => cast_if (decide (a = b))
    | VTuple o1 l1, VTuple o2 l2 =>
        cast_if_and (decide (o1 = o2)) (@list_eq_dec _ go l1 l2)
    | VList o1 l1, VList o2 l2 =>
        cast_if_and (decide (o1 = o2)) (@list_eq_dec _ go l1 l2)
    | VDict o1 l1, VDict o2 l2 =>
        cast_if_and (decide (o1 = o2))
          (@list_eq_dec _ (@prod_eq_dec _ go _ go) l1 l2)
    | _, _ => right _
    end); abstract congruence.
Defined.

(** ** Exceptions and results *)

Inductive exn :=
  | KeyError (k : value)
  | TypeError
  | AdapterError (msg : string).

Inductive result (A : Type) :=
  | Ok (a : A)
  | Raise (e : exn).
Arguments Ok {A} a.
Arguments Raise {A} e.

Definition rbind {A B} (r : result A) (f : A -> result B) : result B :=
  match r with
  | Ok a => f a
  | Raise e => Raise e
  end.

Definition rmap {A B} (f : A -> B) (r : result A) : result B :=
  rbind r (fun a => Ok (f a)).

Declare Scope py_scope.
Delimit Scope py_scope with py.
Notation "'let!' x ':=' c 'in' k" := (rbind c (fun x => k))
  (at level 10, x pattern, c at level 100, k at level 200) : py_scope.
Open Scope py_scope.

(** [try: body / except KeyError: handler]: every other exception, and in
    particular an [AdapterError] raised inside [body], passes through. *)
Definition try_except_KeyError {A} (body handler : result A) : result A :=
  match body with
  | Raise (KeyError _) => handler
  | r => r
  end.

(** ** Dict objects *)

(** Equality of keys as a dict sees it: [True == 1], and a tuple compares
    equal to an instance of any tuple subclass (such as [E]) with equal
    items.  Keys are compared through this normal form. *)
Fixpoint key_norm (v : value) : value :=
  match v with
  | VBool b => VInt (if b then 1 else 0)
  | VE e => VTuple Builtin [VStr (input_name e); VStr (key e)]
  | VTuple _ xs => VTuple Builtin (map key_norm xs)
  | _ => v
  end.

Definition key_eqb (a b : value) : bool :=
  bool_decide (key_norm a = key_norm b).

(** [hash(v)] succeeds: lists and dicts are unhashable, a tuple is hashable
    when all its items are. *)
Fixpoint hashable (v : value) : bool :=
  match v with
  | VTuple _ xs => forallb hashable xs
  | VList _ _ | VDict _ _ => false
  | _ => true
  end.

Definition pydict := list (value * value).

Fixpoint dict_lookup (d : pydict) (k : value) : option value :=
  match d with
  | [] => None
  | (k', v) :: d' => if key_eqb k' k then Some v else dict_lookup d' k
  end.

(** Storing under a key already present keeps the entry's place and its
    key object and replaces the value; a new key is appended. *)
Fixpoint dict_store (d : pydict) (k v : value) : pydict :=
  match d with
  | [] => [(k, v)]
  | (k', v') :: d' =>
      if key_eqb k' k then (k', v) :: d' else (k', v') :: dict_store d' k v
  end.

(** The stores [d[k] = v] for the pairs [(k, v)] of [rs], in order. *)
Definition store_all (acc : pydict) (rs : list (value * value)) : pydict :=
  foldl (fun d r => dict_store d r.1 r.2) acc rs.

(** [d[k]] *)
Definition dict_getitem (d : pydict) (k : value) : result value :=
  if hashable k then
    match dict_lookup d k with
    | Some v => Ok v
    | None => Raise (KeyError k)
    end
  else Raise TypeError.

(** [d[k] = v] *)
Definition dict_setitem (d : pydict) (k v : value) : result pydict :=
  if hashable k then Ok (dict_store d k v) else Raise TypeError.

(** What the subscript of a dict of class [o] with entries [d] does when
    [k] is not among its keys: the outcome, and the entries afterwards.  A
    class without [__missing__] raises [KeyError]. *)
Definition missing (o : origin) (d : pydict) (k : value)
    : result value * pydict :=
  match o with
  | Defaulting _ f stores =>
      let v := call_factory f in
      (Ok v, if stores then dict_store d k v else d)
  | _ => (Raise (KeyError k), d)
  end.

(** [container[key]] for a string [key]: the outcome, and the container
    afterwards.  Only mappings can be subscripted by a string. *)
Definition subscript_str (container : value) (key : string)
    : result value * value :=
  match container with
  | VDict o d =>
      match dict_getitem d (VStr key) with
      | Raise (KeyError k) => let '(r, d') := missing o d k in (r, VDict o d')
      | r => (r, container)
      end
  | _ => (Raise TypeError, container)
  end.

(** The outcome of [container[key]]. *)
Definition getitem_str (container : value) (key : string) : result value :=
  (subscript_str container key).1.
Arguments getitem_str : simpl never.

(** The class [o] defines [__missing__]. *)
Definition defines_missing (o : origin) : bool :=
  match o with
  | Defaulting _ _ _ => true
  | _ => false
  end.

(** A well-formed dict object: hashable keys, no two of them equal. *)
Fixpoint dict_wf (d : pydict) : bool :=
  match d with
  | [] => true
  | (k, _) :: d' =>
      hashable k && negb (existsb (fun e => key_eqb e.1 k) d') && dict_wf d'
  end.

(** ** The resolver *)

(** [[f(x) for x in l]]: left to right, the first exception aborts. *)
Definition list_comp {A B} (f : A -> result B) : list A -> result (list B) :=
  fix go l :=
    match l with
    | [] => Ok []
    | x :: l' =>
        let! y := f x in
        let! ys := go l' in
        Ok (y :: ys)
    end.

(** [{f(k): f(v) for k, v in items}], started from the entries [acc]:
    per entry the key, then the value, then the store. *)
Definition dict_comp {A} (f : A -> result value)
    : list (A * A) -> pydict -> result pydict :=
  fix go items acc :=
    match items with
    | [] => Ok acc
    | (k, v) :: items' =>
        let! k' := f k in
        let! v' := f v in
        let! acc' := dict_setitem acc k' v' in
        go items' acc'
    end.

Inductive handler :=
  | H_element
  | H_tuple
  | H_list
  | H_dict
  | H_constant.

(** The dispatch table of [_construct], keyed by class. *)
Definition dispatch_table : list (pyclass * handler) :=
  [ (cls_E, H_element);
    (cls_tuple, H_tuple);
    (cls_list, H_list);
    (cls_dict, H_dict) ].

(** [table.get(c, default)] *)
Fixpoint table_get (table : list (pyclass * handler)) (c : pyclass)
    (default : handler) : handler :=
  match table with
  | [] => default
  | (c', h) :: table' =>
      if decide (c' = c) then h else table_get table' c default
  end.

Definition dispatch (c : pyclass) : handler :=
  table_get dispatch_table c H_constant.

Definition _construct_constant (_ : pydict) (constant : value) : result value :=
  Ok constant.

(** ["Input '{}' didn't have '{}' in its result.".format(n, k)] *)
Definition msg_missing_key (n k : string) : string :=
  "Input '" +:+ n +:+ "' didn't have '" +:+ k +:+ "' in its result.".

(** ["No such input: '{}'".format(n)] *)
Definition msg_unknown_input (n : string) : string :=
  "No such input: '" +:+ n +:+ "'".

Definition _construct_element (all_inputs : pydict) (element : E)
    : result value :=
  let input_name := input_name element in
  let key := key element in
  try_except_KeyError
    (let! input_results := dict_getitem all_inputs (VStr input_name) in
     try_except_KeyError
       (getitem_str input_results key)
       (Raise (AdapterError (msg_missing_key input_name key))))
    (Raise (AdapterError (msg_unknown_input input_name))).

Definition _construct_list (construct : value -> result value)
    (lst : list value) : result value :=
  rmap (VList Builtin) (list_comp construct lst).

Definition _construct_tuple (construct : value -> result value)
    (tup : list value) : result value :=
  rmap (VTuple Builtin) (list_comp construct tup).

Definition _construct_dict (construct : value -> result value)
    (dic : pydict) : result value :=
  rmap (VDict Builtin) (dict_comp construct dic []).

(** The handler is chosen by the recipe's exact class; the handlers for the
    containers call back into [_construct] on each item.  These functions
    give what a call returns or raises; [_construct_run] below is the call
    together with what it stores in [all_inputs]. *)
Fixpoint _construct (all_inputs : pydict) (recipe : value) {struct recipe}
    : result value :=
  match dispatch (class_of recipe), recipe with
  | H_element, VE element => _construct_element all_inputs element
  | H_tuple, VTuple _ tup => _construct_tuple (_construct all_inputs) tup
  | H_list, VList _ lst => _construct_list (_construct all_inputs) lst
  | H_dict, VDict _ dic => _construct_dict (_construct all_inputs) dic
  | _, _ => _construct_constant all_inputs recipe
  end.


(** ** The resolver with its stores *)

(** A computation on the contents of [all_inputs]: its outcome and the
    contents it leaves.  An exception keeps the stores made before it. *)
Definition St (A : Type) : Type := pydict -> result A * pydict.

Definition st_ret {A} (a : A) : St A := fun s => (Ok a, s).

Definition st_raise {A} (e : exn) : St A := fun s => (Raise e, s).

Definition st_bind {A B} (c : St A) (f : A -> St B) : St B :=
  fun s =>
    match c s with
    | (Ok a, s') => f a s'
    | (Raise e, s') => (Raise e, s')
    end.

Notation "'run!' x '<-' c ';' k" := (st_bind c (fun x => k))
  (at level 10, x pattern, c at level 100, k at level 200) : py_scope.

(** [try: body / except KeyError: handler] *)
Definition st_try_except_KeyError {A} (body handler : St A) : St A :=
  fun s =>
    match body s with
    | (Raise (KeyError _), s') => handler s'
    | r => r
    end.

(** [all_inputs[input_name]]: the object held under the step's name. *)
Definition st_lookup_input (input_name : string) : St value :=
  fun all_inputs => (dict_getitem all_inputs (VStr input_name), all_inputs).

(** [input_results[key]], for the object [input_results] that [all_inputs]
    holds under [input_name]: what the subscript stores in that object is
    seen through [all_inputs]. *)
Definition st_subscript_input (input_name : string) (input_results : value)
    (key : string) : St value :=
  fun all_inputs =>
    let '(r, input_results') := subscript_str input_results key in
    (r, dict_store all_inputs (VStr input_name) input_results').

Definition st_list_comp {A B} (f : A -> St B) : list A -> St (list B) :=
  fix go l :=
    match l with
    | [] => st_ret []
    | x :: l' =>
        run! y <- f x;
        run! ys <- go l';
        st_ret (y :: ys)
    end.

Definition st_dict_comp {A} (f : A -> St value)
    : list (A * A) -> pydict -> St pydict :=
  fix go items acc :=
    match items with
    | [] => st_ret acc
    | (k, v) :: items' =>
        run! k' <- f k;
        run! v' <- f v;
        match dict_setitem acc k' v' with
        | Ok acc' => go items' acc'
        | Raise e => st_raise e
        end
    end.

Definition _construct_element_run (element : E) : St value :=
  let input_name := input_name element in
  let key := key element in
  st_try_except_KeyError
    (run! input_results <- st_lookup_input input_name;
     st_try_except_KeyError
       (st_subscript_input input_name input_results key)
       (st_raise (AdapterError (msg_missing_key input_name key))))
    (st_raise (AdapterError (msg_unknown_input input_name))).

Definition _construct_list_run (construct : value -> St value)
    (lst : list value) : St value :=
  run! vs <- st_list_comp construct lst; st_ret (VList Builtin vs).

Definition _construct_tuple_run (construct : value -> St value)
    (tup : list value) : St value :=
  run! vs <- st_list_comp construct tup; st_ret (VTuple Builtin vs).

Definition _construct_dict_run (construct : value -> St value)
    (dic : pydict) : St value :=
  run! d <- st_dict_comp construct dic []; st_ret (VDict Builtin d).

(** [self._construct(all_inputs, recipe)] as a computation on the contents
    of [all_inputs]. *)
Fixpoint _construct_run (recipe : value) {struct recipe} : St value :=
  match dispatch (class_of recipe), recipe with
  | H_element, VE element => _construct_element_run element
  | H_tuple, VTuple _ tup => _construct_tuple_run _construct_run tup
  | H_list, VList _ lst => _construct_list_run _construct_run lst
  | H_dict, VDict _ dic => _construct_dict_run _construct_run dic
  | _, _ => st_ret recipe
  end.

(** [v'] is [v], or [v] is a mapping that stores defaults and [v'] is [v]
    with defaults stored under string keys it did not have. *)
Definition value_extends (v v' : value) : Prop :=
  v' = v \/
  exists name f d d',
    v = VDict (Defaulting name f true) d /\
    v' = VDict (Defaulting name f true) d' /\
    forall k,
      dict_lookup d' (VStr k) = dict_lookup d (VStr k) \/
      (dict_lookup d (VStr k) = None /\
       dict_lookup d' (VStr k) = Some (call_factory f)).

(** The contents [s'] of [all_inputs] are the contents [s] but for
    defaults stored in step results. *)
Definition inputs_extend (s s' : pydict) : Prop :=
  Forall2 (fun e e' => e'.1 = e.1 /\ value_extends e.2 e'.2) s s'.

(** Resolving the extractor [x] stores a default: the step's result is a
    mapping that stores defaults and lacks the key. *)
Definition stores_on_read (all_inputs : pydict) (x : E) : bool :=
  match dict_lookup all_inputs (VStr (input_name x)) with
  | Some (VDict (Defaulting _ _ true) d) =>
      match dict_lookup d (VStr (key x)) with
      | Some _ => false
      | None => true
      end
  | _ => false
  end.

(** ** The heap and [Adapter.adapt] *)

Definition loc := nat.

(** The dict objects [adapt] works on, by address. *)
Abbreviation heap := (gmap loc pydict).

(** A command on the heap: [None] when it dereferences an address that
    holds no object, else its result and the heap it leaves.  An exception
    keeps the writes made before it. *)
Definition M (A : Type) : Type := heap -> option (result A * heap).

Definition ret {A} (a : A) : M A := fun h => Some (Ok a, h).

Definition bind {A B} (c : M A) (f : A -> M B) : M B :=
  fun h =>
    match c h with
    | Some (Ok a, h') => f a h'
    | Some (Raise e, h') => Some (Raise e, h')
    | None => None
    end.

Notation "'do!' x '<-' c ';' k" := (bind c (fun x => k))
  (at level 10, x pattern, c at level 100, k at level 200) : py_scope.

(** [{}]: a new, empty dict object. *)
Definition new_dict : M loc :=
  fun h => let l := fresh (dom h) in Some (Ok l, <[l := []]> h).

(** The entries of the dict at [l], in iteration order. *)
Definition items (l : loc) : M pydict :=
  fun h => match h !! l with
           | Some d => Some (Ok d, h)
           | None => None
           end.

(** [l[k] = v] on the dict object at [l]. *)
Definition setitem (l : loc) (k v : value) : M unit :=
  fun h => match h !! l with
           | Some d =>
               match dict_setitem d k v with
               | Ok d' => Some (Ok tt, <[l := d']> h)
               | Raise e => Some (Raise e, h)
               end
           | None => None
           end.

(** [self._construct(all_inputs, recipe)] with [all_inputs] by address:
    the resolver works on the object's contents. *)
Definition construct_at (all_inputs : loc) (recipe : value) : M value :=
  do! d <- items all_inputs;
  fun h => let '(r, d') := _construct_run recipe d in
           Some (r, <[all_inputs := d']> h).

Fixpoint for_each {A} (l : list A) (body : A -> M unit) : M unit :=
  match l with
  | [] => ret tt
  | x :: l' => do! _ <- body x; for_each l' body
  end.

(** The adapter object: it holds the recipes it was built with, by
    reference. *)
Record Adapter := { adapting_recipes : loc }.

(** The body of the loop:
    [adapted[name] = self._construct(all_inputs, recipe)]. *)
Definition adapt_body (all_inputs adapted : loc) : value * value -> M unit :=
  fun '(name, recipe) =>
    do! v <- construct_at all_inputs recipe;
    setitem adapted name v.

(** The entries of [adapting_recipes] are taken when the loop starts; the
    loop itself writes to [adapted] only, a different object. *)
Definition adapt (self : Adapter) (all_inputs : loc) : M loc :=
  do! adapted <- new_dict;
  do! recipes <- items (adapting_recipes self);
  do! _ <- for_each recipes (adapt_body all_inputs adapted);
  ret adapted.


(** What the loop does to the entries of [adapted], with the outcomes of
    the resolver: the outcome, and the entries stored when it ends. *)
Fixpoint adapt_entries (inputs recipes acc : pydict) : result unit * pydict :=
  match recipes with
  | [] => (Ok tt, acc)
  | (name, recipe) :: rest =>
      match _construct inputs recipe with
      | Raise e => (Raise e, acc)
      | Ok v =>
          match dict_setitem acc name v with
          | Raise e => (Raise e, acc)
          | Ok acc' => adapt_entries inputs rest acc'
          end
      end
  end.

(** [msg] names [part]: it contains it. *)
Definition mentions (msg part : string) : Prop :=
  exists pre post, msg = pre +:+ part +:+ post.

(** ** What a recipe refers to *)

(** The extractors that resolving [recipe] reaches: itself, or those among
    the items of a builtin tuple or list and the keys and values of a
    builtin dict.  An instance of a subclass is a constant: nothing inside
    it is reached. *)
Fixpoint extractors (recipe : value) : list E :=
  match recipe with
  | VE e => [e]
  | VTuple Builtin xs | VList Builtin xs => concat (map extractors xs)
  | VDict Builtin es =>
      concat (map (fun e => extractors e.1 ++ extractors e.2) es)
  | _ => []
  end.

(** Every dict inside [v], and [v] itself if it is one, is a well-formed
    dict object. *)
Fixpoint value_wf (v : value) : bool :=
  match v with
  | VTuple _ xs | VList _ xs => forallb value_wf xs
  | VDict _ es =>
      dict_wf es && forallb (fun e => value_wf e.1 && value_wf e.2) es
  | _ => true
  end.


(** [Adapter.__init__]: the adapter keeps the reference it is given; the
    dict is not copied. *)
Definition __init__ (recipes : loc) : M Adapter :=
  ret {| adapting_recipes := recipes |}.

(** * Properties *)

Lemma string_app_assoc (a b c : string) : (a +:+ b) +:+ c = a +:+ b +:+ c.
Proof.
  induction a as [|x a IH]; [done|].
  cbv [String.append]; fold String.append. by rewrite IH.
Qed.

Lemma msg_missing_key_not_unknown n k n' :
  msg_missing_key n k <> msg_unknown_input n'.
Proof.
  unfold msg_missing_key, msg_unknown_input. cbv [String.append]. discriminate.
Qed.

(** ** Dispatch *)

Lemma dispatch_cases c :
  dispatch c =
    if decide (c = cls_E) then H_element
    else if decide (c = cls_tuple) then H_tuple
    else if decide (c = cls_list) then H_list
    else if decide (c = cls_dict) then H_dict
    else H_constant.
Proof.
  unfold dispatch, dispatch_table, table_get.
  repeat (case_decide; subst; try congruence);
    repeat (case_decide; try congruence).
Qed.

Lemma dispatch_sub base name : dispatch (cls_sub base name) = H_constant.
Proof. reflexivity. Qed.

Lemma _construct_E all_inputs element :
  _construct all_inputs (VE element) = _construct_element all_inputs element.
Proof. reflexivity. Qed.

Lemma _construct_list_eq all_inputs lst :
  _construct all_inputs (VList Builtin lst) =
  _construct_list (_construct all_inputs) lst.
Proof. reflexivity. Qed.

Lemma _construct_tuple_eq all_inputs tup :
  _construct all_inputs (VTuple Builtin tup) =
  _construct_tuple (_construct all_inputs) tup.
Proof. reflexivity. Qed.

Lemma _construct_dict_eq all_inputs dic :
  _construct all_inputs (VDict Builtin dic) =
  _construct_dict (_construct all_inputs) dic.
Proof. reflexivity. Qed.

Lemma _construct_other all_inputs recipe :
  dispatch (class_of recipe) = H_constant ->
  _construct all_inputs recipe = Ok recipe.
Proof.
  intros H.
  destruct recipe as [| | | |e|o ?|o ?|o ?]; try reflexivity;
    try discriminate; destruct o; try reflexivity; discriminate.
Qed.

(** ** Subscripts *)

Lemma dict_getitem_str d s :
  dict_getitem d (VStr s) =
    match dict_lookup d (VStr s) with
    | Some v => Ok v
    | None => Raise (KeyError (VStr s))
    end.
Proof. reflexivity. Qed.

Lemma getitem_str_VDict o d k :
  getitem_str (VDict o d) k =
    match dict_lookup d (VStr k) with
    | Some v => Ok v
    | None => (missing o d (VStr k)).1
    end.
Proof.
  unfold getitem_str, subscript_str. rewrite dict_getitem_str.
  destruct (dict_lookup d (VStr k)); [done|].
  by destruct (missing o d (VStr k)).
Qed.

Lemma getitem_str_not_dict c k :
  (forall o d, c <> VDict o d) -> getitem_str c k = Raise TypeError.
Proof.
  intros H. destruct c as [| | | | |o xs|o xs|o d]; try reflexivity.
  by destruct (H o d).
Qed.

Lemma missing_plain o d k :
  defines_missing o = false -> missing o d k = (Raise (KeyError k), d).
Proof. by destruct o. Qed.

(** ** Comprehensions *)

Lemma list_comp_Forall2 {A B} (f : A -> result B) l vs :
  Forall2 (fun x y => f x = Ok y) l vs -> list_comp f l = Ok vs.
Proof.
  induction 1 as [|x y l vs Hx _ IH]; simpl; [done|].
  by rewrite Hx, IH.
Qed.

Lemma list_comp_Ok {A B} (f : A -> result B) l vs :
  list_comp f l = Ok vs -> Forall2 (fun x y => f x = Ok y) l vs.
Proof.
  revert vs. induction l as [|x l IH]; simpl; intros vs H.
  - injection H as <-. constructor.
  - destruct (f x) as [y|] eqn:Hx; simpl in H; [|done].
    destruct (list_comp f l) as [ys|]; simpl in H; [|done].
    injection H as <-. constructor; auto.
Qed.

(** ** Key equality and stores *)

Lemma key_eqb_refl k : key_eqb k k = true.
Proof. by apply bool_decide_eq_true. Qed.

Lemma key_eqb_sym a b : key_eqb a b = key_eqb b a.
Proof. unfold key_eqb. apply bool_decide_ext. split; congruence. Qed.

Lemma key_eqb_congr a b c :
  key_eqb a b = true -> key_eqb a c = key_eqb b c.
Proof.
  unfold key_eqb. intros H%bool_decide_eq_true.
  apply bool_decide_ext. rewrite H. done.
Qed.

(** Reading a dict after a store: the stored key reads the new value, every
    other key reads what it read before. *)
Lemma dict_lookup_store d k v k0 :
  dict_lookup (dict_store d k v) k0 =
  if key_eqb k k0 then Some v else dict_lookup d k0.
Proof.
  induction d as [|[k' v'] d IH]; simpl; [done|].
  destruct (key_eqb k' k) eqn:Hk; simpl.
  - rewrite (key_eqb_congr _ _ k0 Hk). by destruct (key_eqb k k0).
  - rewrite IH. destruct (key_eqb k' k0) eqn:Hk0; [|done].
    destruct (key_eqb k k0) eqn:Hkk; [|done].
    rewrite (key_eqb_congr _ _ k Hk0), <- (key_eqb_congr _ _ k Hkk) in Hk.
    by rewrite key_eqb_refl in Hk.
Qed.

(** A key the dict does not hold is appended. *)
Lemma dict_store_new d k v :
  existsb (fun e => key_eqb e.1 k) d = false -> dict_store d k v = d ++ [(k, v)].
Proof.
  induction d as [|[k' v'] d IH]; simpl; [done|].
  intros [Hk Hd]%orb_false_iff. rewrite Hk. by rewrite IH.
Qed.

Lemma dict_lookup_store_all_other acc rs k0 :
  Forall (fun r => key_eqb r.1 k0 = false) rs ->
  dict_lookup (store_all acc rs) k0 = dict_lookup acc k0.
Proof.
  intros H. revert acc. induction H as [|[k v] rs Hk _ IH]; intros acc; [done|].
  simpl. unfold store_all in IH. rewrite IH, dict_lookup_store.
  simpl in Hk. by rewrite Hk.
Qed.

Lemma dict_comp_Forall2 {A} (f : A -> result value) dic rs acc :
  Forall2 (fun e r => f e.1 = Ok r.1 /\ f e.2 = Ok r.2) dic rs ->
  Forall (fun r => hashable r.1 = true) rs ->
  dict_comp f dic acc = Ok (store_all acc rs).
Proof.
  intros H. revert acc.
  induction H as [|[k v] [k' v'] dic rs [Hk Hv] _ IH]; intros acc Hh; [done|].
  apply Forall_cons in Hh as [Hh1 Hh]. simpl in *.
  rewrite Hk, Hv. simpl. unfold dict_setitem. rewrite Hh1. simpl. by apply IH.
Qed.

(** ** Extractors *)

(** C2: when step [n] is in [all_inputs] and its result mapping holds [v]
    under [k], resolving [E(n, k)] returns [v] itself, whatever [v] is (also
    an extractor, a list, a tuple or a dict): it is not resolved further. *)
Theorem extractor_returns_stored_value
    (all_inputs : pydict) (n k : string) (o : origin) (results : pydict)
    (v : value) :
  dict_lookup all_inputs (VStr n) = Some (VDict o results) ->
  dict_lookup results (VStr k) = Some v ->
  _construct all_inputs (VE (mk_E n k)) = Ok v.
Proof.
  intros Hn Hk. rewrite _construct_E. unfold _construct_element. simpl.
  rewrite dict_getitem_str, Hn. simpl.
  by rewrite getitem_str_VDict, Hk.
Qed.

Lemma extractor_returns_stored_value_witness :
  let results := [(VStr "out1", VE (mk_E "absent" "x"));
                  (VStr "out2", VList Builtin [VE (mk_E "absent" "y")])] in
  let all_inputs := [(VStr "stepA", VDict Builtin results)] in
  _construct all_inputs (VE (mk_E "stepA" "out1")) = Ok (VE (mk_E "absent" "x")) /\
  _construct all_inputs (VE (mk_E "stepA" "out2")) =
    Ok (VList Builtin [VE (mk_E "absent" "y")]).
Proof.
  intros results all_inputs. split.
  - apply (extractor_returns_stored_value all_inputs "stepA" "out1"
             Builtin results); reflexivity.
  - apply (extractor_returns_stored_value all_inputs "stepA" "out2"
             Builtin results); reflexivity.
Defined.

(** C3, as stated, fails: the step is there, its result mapping is a
    [defaultdict(int)] without the key, and the extractor resolves to the
    default [0] (which the mapping now holds); nothing is raised. *)
Lemma extractor_defaulting_mapping_returns_default :
  let results := [(VStr "a", VInt 1)] in
  let stepA := VDict (Defaulting "defaultdict" factory_int true) results in
  let all_inputs := [(VStr "stepA", stepA)] in
  dict_lookup all_inputs (VStr "stepA") = Some stepA /\
  dict_lookup results (VStr "b") = None /\
  _construct all_inputs (VE (mk_E "stepA" "b")) = Ok (VInt 0) /\
  _construct_run (VE (mk_E "stepA" "b")) all_inputs =
    (Ok (VInt 0),
     [(VStr "stepA",
       VDict (Defaulting "defaultdict" factory_int true)
         [(VStr "a", VInt 1); (VStr "b", VInt 0)])]).
Proof. repeat split. Qed.

(** C3, amended: when step [n] is in [all_inputs] and its result mapping,
    of a class that does not define [__missing__], has no key [k], resolving
    [E(n, k)] raises the missing-key [AdapterError]; its message names [n]
    and [k], and it is not the unknown-input error: the outer handler
    catches [KeyError] only. *)
Theorem extractor_missing_key
    (all_inputs : pydict) (n k : string) (o : origin) (results : pydict) :
  dict_lookup all_inputs (VStr n) = Some (VDict o results) ->
  dict_lookup results (VStr k) = None ->
  defines_missing o = false ->
  exists msg,
    _construct all_inputs (VE (mk_E n k)) = Raise (AdapterError msg) /\
    msg = msg_missing_key n k /\
    mentions msg n /\ mentions msg k /\
    msg <> msg_unknown_input n.
Proof.
  intros Hn Hk Ho. exists (msg_missing_key n k). repeat split.
  - rewrite _construct_E. unfold _construct_element. simpl.
    rewrite dict_getitem_str, Hn. simpl.
    by rewrite getitem_str_VDict, Hk, (missing_plain o _ _ Ho).
  - by exists "Input '", ("' didn't have '" +:+ k +:+ "' in its result.").
  - exists ("Input '" +:+ n +:+ "' didn't have '"), "' in its result.".
    unfold msg_missing_key. by rewrite !string_app_assoc.
  - apply msg_missing_key_not_unknown.
Qed.

Lemma extractor_missing_key_witness :
  let all_inputs :=
    [(VStr "stepA", VDict Builtin [(VStr "a", VInt 1)]);
     (VStr "stepB", VDict (Subclass "OrderedDict") [(VStr "a", VInt 1)])] in
  (exists msg,
     _construct all_inputs (VE (mk_E "stepA" "b")) = Raise (AdapterError msg) /\
     msg = msg_missing_key "stepA" "b" /\
     mentions msg "stepA" /\ mentions msg "b" /\
     msg <> msg_unknown_input "stepA") /\
  (exists msg,
     _construct all_inputs (VE (mk_E "stepB" "b")) = Raise (AdapterError msg) /\
     msg = msg_missing_key "stepB" "b" /\
     mentions msg "stepB" /\ mentions msg "b" /\
     msg <> msg_unknown_input "stepB").
Proof.
  intros all_inputs. split.
  - apply (extractor_missing_key all_inputs "stepA" "b" Builtin
             [(VStr "a", VInt 1)]); reflexivity.
  - apply (extractor_missing_key all_inputs "stepB" "b" (Subclass "OrderedDict")
             [(VStr "a", VInt 1)]); reflexivity.
Defined.



(** ** Containers and constants *)

(** C7: a list recipe whose elements [r1 .. rn] resolve to [v1 .. vn]
    resolves to the list [[v1, .., vn]]: same length, same order. *)
Theorem list_recipe_resolves_elementwise
    (all_inputs : pydict) (lst vs : list value) :
  Forall2 (fun r v => _construct all_inputs r = Ok v) lst vs ->
  _construct all_inputs (VList Builtin lst) = Ok (VList Builtin vs) /\
  length vs = length lst /\
  forall i r, lst !! i = Some r ->
    exists v, vs !! i = Some v /\ _construct all_inputs r = Ok v.
Proof.
  intros H. split; [|split].
  - rewrite _construct_list_eq. unfold _construct_list.
    by rewrite (list_comp_Forall2 _ _ _ H).
  - symmetry. by eapply Forall2_length.
  - intros i r Hi.
    destruct (Forall2_lookup_l _ _ _ _ _ H Hi) as (v & Hv & Hr). eauto.
Qed.

Lemma list_recipe_resolves_elementwise_witness :
  let all_inputs :=
    [(VStr "stepA", VDict Builtin [(VStr "a", VInt 1); (VStr "b", VInt 2)])] in
  let lst := [VE (mk_E "stepA" "a"); VStr "c"; VE (mk_E "stepA" "b")] in
  let vs := [VInt 1; VStr "c"; VInt 2] in
  _construct all_inputs (VList Builtin lst) = Ok (VList Builtin vs) /\
  length vs = length lst /\
  forall i r, lst !! i = Some r ->
    exists v, vs !! i = Some v /\ _construct all_inputs r = Ok v.
Proof.
  intros all_inputs lst vs.
  apply (list_recipe_resolves_elementwise all_inputs lst vs).
  repeat constructor.
Defined.

(** C8: a value whose class is none of [E], [tuple], [list] and [dict]
    resolves to itself, under every [all_inputs]. *)
Theorem constant_passthrough (all_inputs : pydict) (c : value) :
  class_of c <> cls_E ->
  class_of c <> cls_tuple ->
  class_of c <> cls_list ->
  class_of c <> cls_dict ->
  _construct all_inputs c = Ok c.
Proof.
  intros HE Ht Hl Hd. apply _construct_other. rewrite dispatch_cases.
  repeat case_decide; congruence.
Qed.

Lemma constant_passthrough_witness :
  _construct [] VNone = Ok VNone /\
  _construct [] (VInt 7) = Ok (VInt 7) /\
  _construct [(VStr "s", VDict Builtin [])] (VStr "s") = Ok (VStr "s").
Proof.
  split; [|split]; apply constant_passthrough; discriminate.
Defined.


(** C6, as stated, fails: both the key and the value of the only entry
    resolve, the key to a list, which no dict can hold, and the resolution
    of the mapping raises [TypeError]. *)
Lemma dict_recipe_unhashable_key :
  let all_inputs :=
    [(VStr "s", VDict Builtin [(VStr "k", VList Builtin [VInt 1; VInt 2])])] in
  let dic := [(VE (mk_E "s" "k"), VInt 1)] in
  Forall2 (fun e r => _construct all_inputs e.1 = Ok r.1 /\
                      _construct all_inputs e.2 = Ok r.2)
          dic [(VList Builtin [VInt 1; VInt 2], VInt 1)] /\
  _construct all_inputs (VDict Builtin dic) = Raise TypeError.
Proof. split; [repeat constructor|reflexivity]. Qed.

(** C6, amended: a dict recipe whose entries' keys and values resolve, every
    key to a hashable value, resolves to the dict obtained by storing the
    resolved pairs in the recipe's iteration order.  In it, the last entry
    whose resolved key equals a given key provides the value read under that
    key, and a key that no resolved key equals is absent. *)
Theorem dict_recipe_last_write_wins
    (all_inputs : pydict) (dic : pydict) (rs : list (value * value)) :
  Forall2 (fun e r => _construct all_inputs e.1 = Ok r.1 /\
                      _construct all_inputs e.2 = Ok r.2) dic rs ->
  Forall (fun r => hashable r.1 = true) rs ->
  exists out,
    _construct all_inputs (VDict Builtin dic) = Ok (VDict Builtin out) /\
    out = store_all [] rs /\
    (forall pre k v post k0,
       rs = pre ++ (k, v) :: post ->
       Forall (fun r => key_eqb r.1 k = false) post ->
       key_eqb k0 k = true ->
       dict_lookup out k0 = Some v) /\
    (forall k0,
       Forall (fun r => key_eqb r.1 k0 = false) rs ->
       dict_lookup out k0 = None).
Proof.
  intros Hrs Hh. exists (store_all [] rs). repeat split.
  - rewrite _construct_dict_eq. unfold _construct_dict.
    by rewrite (dict_comp_Forall2 _ _ _ [] Hrs Hh).
  - intros pre k v post k0 -> Hpost Hk0.
    unfold store_all. rewrite foldl_app. simpl.
    fold (store_all [] pre).
    fold (store_all (dict_store (store_all [] pre) k v) post).
    rewrite dict_lookup_store_all_other, dict_lookup_store.
    + by rewrite key_eqb_sym, Hk0.
    + eapply Forall_impl; [exact Hpost|]. intros r Hr. simpl in *.
      by rewrite key_eqb_sym, (key_eqb_congr _ _ _ Hk0), key_eqb_sym.
  - intros k0 Hk0. by rewrite dict_lookup_store_all_other.
Qed.

Lemma dict_recipe_last_write_wins_witness :
  let all_inputs := [(VStr "s", VDict Builtin [(VStr "k", VInt 1)])] in
  let dic := [(VBool true, VStr "a"); (VStr "x", VNone);
              (VE (mk_E "s" "k"), VStr "b")] in
  _construct all_inputs (VDict Builtin dic) =
    Ok (VDict Builtin [(VBool true, VStr "b"); (VStr "x", VNone)]) /\
  dict_lookup [(VBool true, VStr "b"); (VStr "x", VNone)] (VBool true) =
    Some (VStr "b").
Proof.
  intros all_inputs dic.
  destruct (dict_recipe_last_write_wins all_inputs dic
              [(VBool true, VStr "a"); (VStr "x", VNone); (VInt 1, VStr "b")])
    as (out & Hout & -> & Hlast & _).
  - repeat constructor.
  - repeat constructor.
  - split; [exact Hout|].
    apply (Hlast [(VBool true, VStr "a"); (VStr "x", VNone)]
             (VInt 1) (VStr "b") [] (VBool true)); [reflexivity|constructor|reflexivity].
Defined.


Lemma concat_map_nil {A B} (f : A -> list B) l :
  concat (map f l) = [] -> Forall (fun a => f a = []) l.
Proof.
  induction l as [|a l IH]; simpl; [constructor|].
  intros [Ha Hl]%app_eq_nil. constructor; auto.
Qed.

Lemma Forall_concat_map {A B} (P : B -> Prop) (f : A -> list B) l :
  Forall P (concat (map f l)) -> Forall (fun a => Forall P (f a)) l.
Proof.
  induction l as [|a l IH]; simpl; [constructor|].
  intros [Ha Hl]%Forall_app. constructor; auto.
Qed.

(** Induction on values, with the hypothesis for the items of a container. *)
Lemma value_nested_ind (P : value -> Prop) :
  P VNone ->
  (forall b, P (VBool b)) ->
  (forall z, P (VInt z)) ->
  (forall s, P (VStr s)) ->
  (forall e, P (VE e)) ->
  (forall o xs, Forall P xs -> P (VTuple o xs)) ->
  (forall o xs, Forall P xs -> P (VList o xs)) ->
  (forall o es, Forall (fun e => P e.1 /\ P e.2) es -> P (VDict o es)) ->
  forall v, P v.
Proof.
  intros HN HB HI HS HE HT HL HD.
  fix go 1. intros [|b|z|s|e|o xs|o xs|o es].
  - exact HN.
  - apply HB.
  - apply HI.
  - apply HS.
  - apply HE.
  - apply HT. induction xs as [|x xs IH]; constructor; [apply go|exact IH].
  - apply HL. induction xs as [|x xs IH]; constructor; [apply go|exact IH].
  - apply HD. induction es as [|[k v] es IH]; constructor; [|exact IH].
    split; apply go.
Qed.

Lemma list_comp_ext {A B} (f g : A -> result B) l :
  Forall (fun x => f x = g x) l -> list_comp f l = list_comp g l.
Proof.
  induction 1 as [|x l Hx _ IH]; simpl; [done|]. by rewrite Hx, IH.
Qed.

Lemma dict_comp_ext {A} (f g : A -> result value) dic acc :
  Forall (fun e => f e.1 = g e.1 /\ f e.2 = g e.2) dic ->
  dict_comp f dic acc = dict_comp g dic acc.
Proof.
  intros H. revert acc.
  induction H as [|[k v] dic [Hk Hv] _ IH]; intros acc; simpl in *; [done|].
  rewrite Hk, Hv. destruct (g k); simpl; [|done].
  destruct (g v); simpl; [|done].
  destruct (dict_setitem acc a a0); simpl; [|done]. apply IH.
Qed.

(** ** The stores of the resolver *)

Lemma key_eqb_str a b : key_eqb (VStr a) (VStr b) = true -> a = b.
Proof. unfold key_eqb. intros H%bool_decide_eq_true. by injection H. Qed.

Lemma value_extends_refl v : value_extends v v.
Proof. by left. Qed.

Lemma value_extends_trans a b c :
  value_extends a b -> value_extends b c -> value_extends a c.
Proof.
  intros [->|(nm & f & d & d' & -> & -> & H)] Hbc; [done|].
  destruct Hbc as [->|(nm2 & f2 & d2 & d2' & Heq & -> & H2)].
  { right. eauto 10. }
  injection Heq as <- <- <-. right. exists nm, f, d, d2'.
  split; [done|]. split; [done|]. intros k.
  destruct (H k) as [E|[E1 E2]], (H2 k) as [E'|[E1' E2']].
  - left. congruence.
  - right. split; congruence.
  - right. split; congruence.
  - congruence.
Qed.

Lemma inputs_extend_refl s : inputs_extend s s.
Proof.
  apply Forall_Forall2_diag, Forall_forall. intros e _.
  split; [done|apply value_extends_refl].
Qed.

Lemma inputs_extend_trans s1 s2 s3 :
  inputs_extend s1 s2 -> inputs_extend s2 s3 -> inputs_extend s1 s3.
Proof.
  unfold inputs_extend. intros H12. revert s3.
  induction H12 as [|e1 e2 s1 s2 [Hk Hv] _ IH]; intros s3 H23.
  - apply Forall2_nil_inv_l in H23 as ->. constructor.
  - apply Forall2_cons_inv_l in H23 as (e3 & s3' & [Hk' Hv'] & H23 & ->).
    constructor; [|by apply IH].
    split; [congruence|by eapply value_extends_trans].
Qed.

(** Step names are found in the same places after the stores. *)
Lemma inputs_extend_lookup s s' k :
  inputs_extend s s' ->
  match dict_lookup s k with
  | Some v => exists v', dict_lookup s' k = Some v' /\ value_extends v v'
  | None => dict_lookup s' k = None
  end.
Proof.
  induction 1 as [|[k1 v1] [k2 v2] s s' [Hk Hv] _ IH]; simpl in *; [done|].
  subst k2. destruct (key_eqb k1 k); [eauto|done].
Qed.

Lemma getitem_str_extends v v' k :
  value_extends v v' -> getitem_str v' k = getitem_str v k.
Proof.
  intros [->|(nm & f & d & d' & -> & -> & H)]; [done|].
  rewrite !getitem_str_VDict.
  destruct (H k) as [E|[E1 E2]].
  - rewrite E. by destruct (dict_lookup d (VStr k)).
  - by rewrite E1, E2.
Qed.

Lemma _construct_element_extends s s' x :
  inputs_extend s s' -> _construct_element s' x = _construct_element s x.
Proof.
  intros H. unfold _construct_element. simpl. rewrite !dict_getitem_str.
  pose proof (inputs_extend_lookup s s' (VStr (input_name x)) H) as Hl.
  destruct (dict_lookup s (VStr (input_name x))) as [v|].
  - destruct Hl as (v' & -> & Hv). simpl.
    by rewrite (getitem_str_extends v v' _ Hv).
  - by rewrite Hl.
Qed.

(** The outcome of a resolution does not depend on the defaults stored
    before it. *)
Lemma _construct_extends s s' recipe :
  inputs_extend s s' -> _construct s' recipe = _construct s recipe.
Proof.
  intros H. induction recipe as [| | | |x|o xs IH|o xs IH|o es IH]
    using value_nested_ind; try reflexivity.
  - rewrite !_construct_E. by apply _construct_element_extends.
  - destruct o; [|reflexivity..].
    rewrite !_construct_tuple_eq. unfold _construct_tuple. f_equal.
    by apply list_comp_ext.
  - destruct o; [|reflexivity..].
    rewrite !_construct_list_eq. unfold _construct_list. f_equal.
    by apply list_comp_ext.
  - destruct o; [|reflexivity..].
    rewrite !_construct_dict_eq. unfold _construct_dict. f_equal.
    by apply dict_comp_ext.
Qed.

Lemma subscript_str_extends c k : value_extends c (subscript_str c k).2.
Proof.
  destruct c as [| | | | |o xs|o xs|o d]; try (left; reflexivity).
  unfold subscript_str. rewrite dict_getitem_str.
  destruct (dict_lookup d (VStr k)) as [v|] eqn:Hk; [by left|].
  destruct o as [| |nm f [|]]; try (left; reflexivity).
  right. exists nm, f, d, (dict_store d (VStr k) (call_factory f)).
  split; [done|]. split; [done|]. intros k0.
  rewrite dict_lookup_store.
  destruct (key_eqb (VStr k) (VStr k0)) eqn:Heq; [|by left].
  apply key_eqb_str in Heq as <-. by right.
Qed.

Lemma dict_store_extends s k v v' :
  dict_lookup s k = Some v -> value_extends v v' ->
  inputs_extend s (dict_store s k v').
Proof.
  intros Hk Hv. induction s as [|[k0 v0] s IH]; simpl in *; [done|].
  destruct (key_eqb k0 k).
  - injection Hk as ->. constructor; [done|apply inputs_extend_refl].
  - constructor; [|by apply IH]. split; [done|apply value_extends_refl].
Qed.

(** The extractor handler with its stores: the outcome is the one of
    [_construct_element], and [all_inputs] gains at most a default. *)
Lemma _construct_element_run_spec x s :
  (_construct_element_run x s).1 = _construct_element s x /\
  inputs_extend s (_construct_element_run x s).2.
Proof.
  unfold _construct_element_run, _construct_element. simpl.
  unfold st_try_except_KeyError, st_bind, st_lookup_input, st_subscript_input,
    st_raise.
  rewrite dict_getitem_str.
  destruct (dict_lookup s (VStr (input_name x))) as [c|] eqn:Hn; simpl.
  - pose proof (subscript_str_extends c (key x)) as Hc.
    pose proof (dict_store_extends s (VStr (input_name x)) c _ Hn Hc) as Hs.
    unfold getitem_str.
    destruct (subscript_str c (key x)) as [[v|[]] c']; simpl in *;
      (split; [reflexivity|exact Hs]).
  - split; [done|apply inputs_extend_refl].
Qed.

Lemma st_list_comp_spec (g : value -> St value) l :
  Forall (fun x => forall s, (g x s).1 = _construct s x /\
                             inputs_extend s (g x s).2) l ->
  forall s, (st_list_comp g l s).1 = list_comp (_construct s) l /\
            inputs_extend s (st_list_comp g l s).2.
Proof.
  induction 1 as [|x l Hx _ IH]; intros s; simpl.
  - split; [done|apply inputs_extend_refl].
  - unfold st_bind. destruct (Hx s) as [Ho He].
    destruct (g x s) as [[y|e] s1]; simpl in *; rewrite <- Ho; simpl;
      [|by split].
    destruct (IH s1) as [Ho' He'].
    rewrite (list_comp_ext (_construct s) (_construct s1) l)
      by (apply Forall_forall; intros; symmetry; by apply _construct_extends).
    destruct (st_list_comp g l s1) as [[ys|e] s2]; simpl in *;
      rewrite <- Ho'; simpl; (split; [done|by eapply inputs_extend_trans]).
Qed.

Lemma st_dict_comp_spec (g : value -> St value) dic :
  Forall (fun e => (forall s, (g e.1 s).1 = _construct s e.1 /\
                              inputs_extend s (g e.1 s).2) /\
                   (forall s, (g e.2 s).1 = _construct s e.2 /\
                              inputs_extend s (g e.2 s).2)) dic ->
  forall acc s,
    (st_dict_comp g dic acc s).1 = dict_comp (_construct s) dic acc /\
    inputs_extend s (st_dict_comp g dic acc s).2.
Proof.
  induction 1 as [|[k v] dic [Hk Hv] _ IH]; intros acc s; simpl in *.
  - split; [done|apply inputs_extend_refl].
  - unfold st_bind. destruct (Hk s) as [Ho He].
    destruct (g k s) as [[k'|e] s1]; simpl in *; rewrite <- Ho; simpl;
      [|by split].
    destruct (Hv s1) as [Ho1 He1].
    rewrite <- (_construct_extends s s1 v He), <- Ho1.
    destruct (g v s1) as [[v'|e] s2]; simpl in *;
      [|split; [done|by eapply inputs_extend_trans]].
    assert (inputs_extend s s2) as He2 by by eapply inputs_extend_trans.
    destruct (dict_setitem acc k' v') as [acc'|e]; simpl; [|by split].
    destruct (IH acc' s2) as [Ho2 He3].
    rewrite (dict_comp_ext (_construct s) (_construct s2) dic)
      by (apply Forall_forall; intros; split; symmetry;
          by apply _construct_extends).
    split; [done|by eapply inputs_extend_trans].
Qed.

(** The resolver with its stores and the resolver agree on the outcome, and
    [all_inputs] changes by defaults stored in step results only. *)
Lemma _construct_run_spec recipe s :
  (_construct_run recipe s).1 = _construct s recipe /\
  inputs_extend s (_construct_run recipe s).2.
Proof.
  revert s. induction recipe as [|b|z|str|x|o xs IH|o xs IH|o es IH]
    using value_nested_ind; intros s;
    try (split; [reflexivity|apply inputs_extend_refl]).
  - apply _construct_element_run_spec.
  - destruct o; try (split; [reflexivity|apply inputs_extend_refl]).
    rewrite _construct_tuple_eq. unfold _construct_tuple, rmap.
    change (_construct_run (VTuple Builtin xs))
      with (_construct_tuple_run _construct_run xs).
    unfold _construct_tuple_run, st_bind.
    destruct (st_list_comp_spec _construct_run xs IH s) as [Ho He].
    destruct (st_list_comp _construct_run xs s) as [[vs|e] s1];
      simpl in *; rewrite <- Ho; by split.
  - destruct o; try (split; [reflexivity|apply inputs_extend_refl]).
    rewrite _construct_list_eq. unfold _construct_list, rmap.
    change (_construct_run (VList Builtin xs))
      with (_construct_list_run _construct_run xs).
    unfold _construct_list_run, st_bind.
    destruct (st_list_comp_spec _construct_run xs IH s) as [Ho He].
    destruct (st_list_comp _construct_run xs s) as [[vs|e] s1];
      simpl in *; rewrite <- Ho; by split.
  - destruct o; try (split; [reflexivity|apply inputs_extend_refl]).
    rewrite _construct_dict_eq. unfold _construct_dict, rmap.
    change (_construct_run (VDict Builtin es))
      with (_construct_dict_run _construct_run es).
    unfold _construct_dict_run, st_bind.
    destruct (st_dict_comp_spec _construct_run es IH [] s) as [Ho He].
    destruct (st_dict_comp _construct_run es [] s) as [[d|e] s1];
      simpl in *; rewrite <- Ho; by split.
Qed.

Lemma dict_store_same d k v :
  dict_lookup d k = Some v -> dict_store d k v = d.
Proof.
  induction d as [|[k0 v0] d IH]; simpl; [done|].
  destruct (key_eqb k0 k); [by intros [= ->]|].
  intros H. by rewrite IH.
Qed.

Lemma _construct_element_run_quiet x s :
  stores_on_read s x = false -> (_construct_element_run x s).2 = s.
Proof.
  unfold stores_on_read, _construct_element_run. simpl.
  unfold st_try_except_KeyError, st_bind, st_lookup_input, st_subscript_input,
    st_raise.
  rewrite dict_getitem_str.
  destruct (dict_lookup s (VStr (input_name x))) as [c|] eqn:Hn; simpl; [|done].
  intros Hq.
  assert ((subscript_str c (key x)).2 = c) as Hc.
  { destruct c as [| | | | |o xs|o xs|o d]; try reflexivity.
    unfold subscript_str. rewrite dict_getitem_str.
    destruct (dict_lookup d (VStr (key x))); [done|].
    by destruct o as [| |nm f [|]]. }
  destruct (subscript_str c (key x)) as [[v|[]] c']; simpl in *; subst c';
    by rewrite (dict_store_same s _ c Hn).
Qed.

Lemma st_list_comp_quiet {A B} (g : A -> St B) l s :
  Forall (fun x => (g x s).2 = s) l -> (st_list_comp g l s).2 = s.
Proof.
  induction 1 as [|x l Hx _ IH]; simpl; [done|].
  unfold st_bind. destruct (g x s) as [[y|e] s1]; simpl in *; subst s1; [|done].
  by destruct (st_list_comp g l s) as [[ys|e] s2].
Qed.

Lemma st_dict_comp_quiet {A} (g : A -> St value) dic acc s :
  Forall (fun e => (g e.1 s).2 = s /\ (g e.2 s).2 = s) dic ->
  (st_dict_comp g dic acc s).2 = s.
Proof.
  intros H. revert acc.
  induction H as [|[k v] dic [Hk Hv] _ IH]; intros acc; simpl in *; [done|].
  unfold st_bind. destruct (g k s) as [[k'|e] s1]; simpl in *; subst s1; [|done].
  destruct (g v s) as [[v'|e] s1]; simpl in *; subst s1; [|done].
  destruct (dict_setitem acc k' v'); [apply IH|done].
Qed.

(** A resolution none of whose extractors stores a default leaves
    [all_inputs] as it is. *)
Lemma _construct_run_quiet recipe s :
  Forall (fun x => stores_on_read s x = false) (extractors recipe) ->
  (_construct_run recipe s).2 = s.
Proof.
  induction recipe as [|b|z|str|x|o xs IH|o xs IH|o es IH]
    using value_nested_ind; intros H; try reflexivity.
  - apply Forall_cons in H as [H _]. by apply _construct_element_run_quiet.
  - destruct o; [|reflexivity..]. simpl in H. apply Forall_concat_map in H.
    change (_construct_run (VTuple Builtin xs))
      with (_construct_tuple_run _construct_run xs).
    unfold _construct_tuple_run, st_bind.
    assert ((st_list_comp _construct_run xs s).2 = s) as Hs.
    { apply st_list_comp_quiet.
      rewrite Forall_forall in IH, H |- *. intros r Hr. by apply IH, H. }
    by destruct (st_list_comp _construct_run xs s) as [[vs|e] s1].
  - destruct o; [|reflexivity..]. simpl in H. apply Forall_concat_map in H.
    change (_construct_run (VList Builtin xs))
      with (_construct_list_run _construct_run xs).
    unfold _construct_list_run, st_bind.
    assert ((st_list_comp _construct_run xs s).2 = s) as Hs.
    { apply st_list_comp_quiet.
      rewrite Forall_forall in IH, H |- *. intros r Hr. by apply IH, H. }
    by destruct (st_list_comp _construct_run xs s) as [[vs|e] s1].
  - destruct o; [|reflexivity..]. simpl in H. apply Forall_concat_map in H.
    change (_construct_run (VDict Builtin es))
      with (_construct_dict_run _construct_run es).
    unfold _construct_dict_run, st_bind.
    assert ((st_dict_comp _construct_run es [] s).2 = s) as Hs.
    { apply st_dict_comp_quiet.
      rewrite Forall_forall in IH, H |- *. intros kv Hkv.
      destruct (IH kv Hkv) as [IHk IHv].
      specialize (H kv Hkv). apply Forall_app in H as [Hk Hv]. auto. }
    by destruct (st_dict_comp _construct_run es [] s) as [[d|e] s1].
Qed.

(** ** The loop of [adapt] *)

Ltac heap_eq :=
  apply map_eq; intros ?; rewrite ?lookup_insert;
  repeat case_decide; subst; congruence.

Section AdaptLoop.
Variables (all_inputs adapted : loc) (inputs0 : pydict).
Hypothesis Hfresh : adapted <> all_inputs.

(** The loop, started with [all_inputs] holding [inputs0] but for stored
    defaults: the outcomes are those of the resolver on [inputs0]. *)
Lemma for_each_adapt_entries recipes acc inputs (h : heap) :
  h !! adapted = Some acc ->
  h !! all_inputs = Some inputs ->
  inputs_extend inputs0 inputs ->
  exists inputs',
    inputs_extend inputs0 inputs' /\
    (Forall (fun e => Forall (fun x => stores_on_read inputs x = false)
                             (extractors e.2)) recipes ->
     inputs' = inputs) /\
    for_each recipes (adapt_body all_inputs adapted) h =
      Some ((adapt_entries inputs0 recipes acc).1,
            <[adapted := (adapt_entries inputs0 recipes acc).2]>
              (<[all_inputs := inputs']> h)).
Proof.
  revert acc inputs h. induction recipes as [|[name recipe] rest IH];
    intros acc inputs h Hacc Hin Hext; simpl.
  - exists inputs. split; [done|]. split; [done|].
    unfold ret. do 2 f_equal. heap_eq.
  - unfold bind at 1. unfold adapt_body at 1.
    unfold bind at 1. unfold construct_at, bind, items. rewrite Hin.
    destruct (_construct_run_spec recipe inputs) as [Ho He].
    rewrite (_construct_extends inputs0 inputs recipe Hext) in Ho.
    pose proof (_construct_run_quiet recipe inputs) as Hq.
    destruct (_construct_run recipe inputs) as [r inputs1].
    simpl in Ho, He, Hq. subst r.
    assert (inputs_extend inputs0 inputs1) as Hext1
      by by eapply inputs_extend_trans.
    destruct (_construct inputs0 recipe) as [v|e]; simpl.
    + unfold setitem. rewrite lookup_insert_ne, Hacc by done.
      destruct (dict_setitem acc name v) as [acc'|e]; simpl.
      * destruct (IH acc' inputs1
                    (<[adapted := acc']> (<[all_inputs := inputs1]> h)))
          as (inputs' & Hext' & Hq' & Hrun).
        -- by rewrite lookup_insert_eq.
        -- by rewrite lookup_insert_ne, lookup_insert_eq.
        -- done.
        -- exists inputs'. split; [done|]. split.
           ++ intros [Hq1 Hqs]%Forall_cons. simpl in Hq1.
              rewrite (Hq Hq1) in Hq'. by apply Hq'.
           ++ etrans; [exact Hrun|]. do 2 f_equal. heap_eq.
      * exists inputs1. split; [done|]. split.
        -- intros [Hq1 _]%Forall_cons. by apply Hq.
        -- do 2 f_equal. heap_eq.
    + exists inputs1. split; [done|]. split.
      * intros [Hq1 _]%Forall_cons. by apply Hq.
      * do 2 f_equal. heap_eq.
Qed.
End AdaptLoop.

(** [adapt] in one step: its outcome is read off the outcomes of the
    resolver on the initial [all_inputs], the entries go to a new object, and
    [all_inputs] holds what it held but for stored defaults. *)
Lemma adapt_eq (self : Adapter) (all_inputs : loc) (h : heap)
    (cfg inputs : pydict) :
  h !! adapting_recipes self = Some cfg ->
  h !! all_inputs = Some inputs ->
  exists inputs',
    inputs_extend inputs inputs' /\
    (Forall (fun e => Forall (fun x => stores_on_read inputs x = false)
                             (extractors e.2)) cfg ->
     inputs' = inputs) /\
    adapt self all_inputs h =
      Some (match (adapt_entries inputs cfg []).1 with
            | Ok _ => Ok (fresh (dom h))
            | Raise e => Raise e
            end,
            <[fresh (dom h) := (adapt_entries inputs cfg []).2]>
              (<[all_inputs := inputs']> h)).
Proof.
  intros Hcfg Hin.
  pose proof (is_fresh (dom h)) as Hl%not_elem_of_dom.
  set (l := fresh (dom h)) in *.
  assert (l <> all_inputs) as Hne by congruence.
  assert (l <> adapting_recipes self) as Hne'.
  { intros Heq. rewrite Heq in Hl. congruence. }
  destruct (for_each_adapt_entries all_inputs l inputs Hne cfg [] inputs
              (<[l := []]> h)) as (inputs' & Hext & Hq & Hrun).
  - by rewrite lookup_insert_eq.
  - by rewrite lookup_insert_ne.
  - apply inputs_extend_refl.
  - exists inputs'. split; [done|]. split; [done|].
    unfold adapt, bind, new_dict, items. fold l.
    rewrite lookup_insert_ne, Hcfg by done. rewrite Hrun.
    destruct (adapt_entries inputs cfg []).1; unfold ret;
      do 2 f_equal; heap_eq.
Qed.

Lemma adapt_entries_extends s s' cfg acc :
  inputs_extend s s' -> adapt_entries s' cfg acc = adapt_entries s cfg acc.
Proof.
  intros H. revert acc. induction cfg as [|[name recipe] cfg IH];
    intros acc; simpl; [done|].
  rewrite (_construct_extends s s' recipe H).
  destruct (_construct s recipe); [|done].
  by destruct (dict_setitem acc name a).
Qed.

(** ** Entries of a well-formed dict *)

Lemma existsb_key_false (d : pydict) k :
  existsb (fun e => key_eqb e.1 k) d = false <->
  Forall (fun e => key_eqb e.1 k = false) d.
Proof.
  induction d as [|e d IH]; simpl.
  - split; [constructor|done].
  - rewrite orb_false_iff, Forall_cons, IH. done.
Qed.

Lemma dict_wf_cons k v d :
  dict_wf ((k, v) :: d) = true <->
  hashable k = true /\ Forall (fun e => key_eqb e.1 k = false) d /\
  dict_wf d = true.
Proof.
  simpl. rewrite !andb_true_iff, negb_true_iff, existsb_key_false. tauto.
Qed.

Lemma dict_wf_hashable d :
  dict_wf d = true -> Forall (fun e => hashable e.1 = true) d.
Proof.
  induction d as [|[k v] d IH]; [constructor|].
  intros (Hk & _ & Hd)%dict_wf_cons. constructor; auto.
Qed.


Lemma existsb_key_keys (d d' : pydict) k :
  d.*1 = d'.*1 ->
  existsb (fun e => key_eqb e.1 k) d = existsb (fun e => key_eqb e.1 k) d'.
Proof.
  revert d'. induction d as [|e d IH]; intros [|e' d'] H; try done.
  injection H as H1 H. simpl. by rewrite H1, (IH _ H).
Qed.

Lemma dict_wf_keys d d' : d.*1 = d'.*1 -> dict_wf d = dict_wf d'.
Proof.
  revert d'. induction d as [|[k v] d IH]; intros [|[k' v'] d'] H;
    try done.
  injection H as <- H. simpl.
  by rewrite (IH _ H), (existsb_key_keys d d' k H).
Qed.

(** In a well-formed dict every entry is read back under its own key. *)
Lemma dict_lookup_entry d k v :
  dict_wf d = true -> (k, v) ∈ d -> dict_lookup d k = Some v.
Proof.
  induction d as [|[k' v'] d IH]; intros Hwf Hin.
  - by apply elem_of_nil in Hin.
  - apply dict_wf_cons in Hwf as (_ & Hk' & Hwf). simpl.
    apply elem_of_cons in Hin as [[= <- <-]|Hin].
    + by rewrite key_eqb_refl.
    + rewrite Forall_forall in Hk'. specialize (Hk' _ Hin). simpl in Hk'.
      rewrite key_eqb_sym, Hk'. auto.
Qed.

(** The loop on a well-formed configuration whose recipes all resolve:
    every entry is appended, under its own name. *)
Lemma adapt_entries_ok inputs cfg acc :
  dict_wf cfg = true ->
  Forall (fun e => exists v, _construct inputs e.2 = Ok v) cfg ->
  Forall (fun e => Forall (fun a => key_eqb a.1 e.1 = false) acc) cfg ->
  exists outs,
    adapt_entries inputs cfg acc = (Ok tt, acc ++ outs) /\
    Forall2 (fun e o => o.1 = e.1 /\ _construct inputs e.2 = Ok o.2) cfg outs.
Proof.
  revert acc. induction cfg as [|[name recipe] cfg IH]; intros acc Hwf Hres Hacc.
  - exists []. by rewrite app_nil_r.
  - apply dict_wf_cons in Hwf as (Hh & Hname & Hwf).
    apply Forall_cons in Hres as [[v Hv] Hres].
    apply Forall_cons in Hacc as [Hacc1 Hacc]. simpl in *.
    rewrite Hv. unfold dict_setitem. rewrite Hh.
    rewrite dict_store_new by by apply existsb_key_false.
    destruct (IH (acc ++ [(name, v)]) Hwf Hres) as (outs & Hrun & Hall).
    { rewrite Forall_forall in Hacc, Hname |- *. intros e He.
      apply Forall_app. split; [by apply Hacc|].
      constructor; [|constructor]. simpl.
      rewrite key_eqb_sym. by apply Hname. }
    exists ((name, v) :: outs). split.
    + by rewrite Hrun, <- app_assoc.
    + by constructor.
Qed.


(** ** [Adapter.adapt] *)

(** C1: on a configuration all of whose recipes resolve, [adapt] returns a
    dict whose keys are the configured argument names, in the configuration's
    order, and in which each name reads the result of resolving its own
    recipe against [all_inputs]. *)
Theorem adapt_binds_each_argument
    (self : Adapter) (all_inputs : loc) (h : heap) (cfg inputs : pydict) :
  h !! adapting_recipes self = Some cfg ->
  h !! all_inputs = Some inputs ->
  dict_wf cfg = true ->
  Forall (fun e => exists v, _construct inputs e.2 = Ok v) cfg ->
  exists adapted out h',
    adapt self all_inputs h = Some (Ok adapted, h') /\
    h' !! adapted = Some out /\
    out.*1 = cfg.*1 /\
    forall name recipe,
      (name, recipe) ∈ cfg ->
      dict_getitem out name = _construct inputs recipe.
Proof.
  intros Hcfg Hin Hwf Hres.
  destruct (adapt_entries_ok inputs cfg [] Hwf Hres) as (outs & Hrun & Hall).
  { apply Forall_forall. intros; constructor. }
  simpl in Hrun.
  assert (outs.*1 = cfg.*1) as Hkeys.
  { clear -Hall. induction Hall as [|e o cfg outs [Ho _] _ IH]; [done|].
    rewrite !fmap_cons. by f_equal. }
  destruct (adapt_eq self all_inputs h cfg inputs Hcfg Hin)
    as (inputs' & _ & _ & Heq).
  exists (fresh (dom h)), outs,
    (<[fresh (dom h) := outs]> (<[all_inputs := inputs']> h)). repeat split.
  - rewrite Heq. by rewrite Hrun.
  - by rewrite lookup_insert_eq.
  - done.
  - intros name recipe Hnr.
    apply list_elem_of_lookup in Hnr as [i Hi].
    destruct (Forall2_lookup_l _ _ _ _ _ Hall Hi) as ([name' v] & Ho & Hn & Hv).
    simpl in *. subst name'. rewrite Hv. unfold dict_getitem.
    pose proof (dict_wf_hashable _ Hwf) as Hh.
    rewrite Forall_forall in Hh.
    assert (hashable name = true) as ->
      by (apply (Hh (name, recipe)), list_elem_of_lookup; eauto).
    rewrite (dict_lookup_entry outs name v); [done| |].
    + by rewrite (dict_wf_keys outs cfg Hkeys).
    + apply list_elem_of_lookup. eauto.
Qed.

Lemma adapt_binds_each_argument_witness :
  let cfg := [(VStr "x", VE (mk_E "stepA" "a"));
              (VStr "y", VList Builtin [VE (mk_E "stepA" "a");
                                        VE (mk_E "stepA" "b")]);
              (VStr "c", VInt 7)] in
  let inputs :=
    [(VStr "stepA", VDict Builtin [(VStr "a", VInt 1); (VStr "b", VInt 2)])] in
  let h : heap := {[ 0 := cfg; 1 := inputs ]} in
  exists adapted out h',
    adapt {| adapting_recipes := 0 |} 1 h = Some (Ok adapted, h') /\
    h' !! adapted = Some out /\
    out.*1 = cfg.*1 /\
    forall name recipe,
      (name, recipe) ∈ cfg ->
      dict_getitem out name = _construct inputs recipe.
Proof.
  intros cfg inputs h.
  apply (adapt_binds_each_argument {| adapting_recipes := 0 |} 1 h cfg inputs);
    [reflexivity|reflexivity|reflexivity|].
  repeat constructor; eexists; reflexivity.
Defined.






(** * Further properties of the resolver *)



Lemma list_comp_first_error {A B} (f : A -> result B) pre x post vs e :
  Forall2 (fun x y => f x = Ok y) pre vs ->
  f x = Raise e ->
  list_comp f (pre ++ x :: post) = Raise e.
Proof.
  intros Hpre Hx. induction Hpre as [|a b pre vs Ha _ IH]; simpl.
  - by rewrite Hx.
  - simpl in IH. by rewrite Ha, IH.
Qed.





(** X2: a tuple recipe resolves exactly when each of its items does, and
    then to the builtin tuple of the resolved items, in order. *)
Theorem tuple_recipe_resolves_iff
    (all_inputs : pydict) (tup : list value) (out : value) :
  _construct all_inputs (VTuple Builtin tup) = Ok out <->
  exists vs, out = VTuple Builtin vs /\
             Forall2 (fun r v => _construct all_inputs r = Ok v) tup vs.
Proof.
  rewrite _construct_tuple_eq. unfold _construct_tuple, rmap. split.
  - destruct (list_comp (_construct all_inputs) tup) as [vs|] eqn:Hc; [|done].
    simpl. intros [= <-]. exists vs. split; [done|]. by apply list_comp_Ok.
  - intros (vs & -> & H). by rewrite (list_comp_Forall2 _ _ _ H).
Qed.

(** X3: a list recipe resolves only when each of its items does: a result
    is the builtin list of the resolved items, never a shorter list or one
    with an item left out. *)
Theorem list_recipe_resolves_iff
    (all_inputs : pydict) (lst : list value) (out : value) :
  _construct all_inputs (VList Builtin lst) = Ok out <->
  exists vs, out = VList Builtin vs /\
             Forall2 (fun r v => _construct all_inputs r = Ok v) lst vs.
Proof.
  rewrite _construct_list_eq. unfold _construct_list, rmap. split.
  - destruct (list_comp (_construct all_inputs) lst) as [vs|] eqn:Hc; [|done].
    simpl. intros [= <-]. exists vs. split; [done|]. by apply list_comp_Ok.
  - intros (vs & -> & H). by rewrite (list_comp_Forall2 _ _ _ H).
Qed.

(** X4: in a list or a tuple recipe the first item that fails to resolve
    decides the outcome: its exception is raised as it is, whatever the items
    after it are. *)
Theorem sequence_recipe_first_error
    (all_inputs : pydict) (pre post vs : list value) (r : value) (e : exn) :
  Forall2 (fun r v => _construct all_inputs r = Ok v) pre vs ->
  _construct all_inputs r = Raise e ->
  _construct all_inputs (VList Builtin (pre ++ r :: post)) = Raise e /\
  _construct all_inputs (VTuple Builtin (pre ++ r :: post)) = Raise e.
Proof.
  intros Hpre Hr.
  rewrite _construct_list_eq, _construct_tuple_eq.
  unfold _construct_list, _construct_tuple.
  by rewrite (list_comp_first_error _ pre r post vs e Hpre Hr).
Qed.

Lemma sequence_recipe_first_error_witness :
  let all_inputs := [(VStr "stepA", VDict Builtin [(VStr "a", VInt 1)])] in
  let pre := [VE (mk_E "stepA" "a"); VInt 5] in
  let post := [VE (mk_E "gone" "k")] in
  let r := VList Builtin [VE (mk_E "stepA" "b")] in
  let e := AdapterError (msg_missing_key "stepA" "b") in
  _construct all_inputs (VList Builtin (pre ++ r :: post)) = Raise e /\
  _construct all_inputs (VTuple Builtin (pre ++ r :: post)) = Raise e.
Proof.
  intros all_inputs pre post r e.
  apply (sequence_recipe_first_error all_inputs pre post [VInt 1; VInt 5] r e);
    [repeat constructor|reflexivity].
Defined.

(** X5: when the step an extractor names is in [all_inputs] but what it
    holds is not a mapping (a list, a string, [None], ...), the subscript's
    [TypeError] leaves [_construct] as it is: neither handler turns it into
    an [AdapterError]. *)
Theorem extractor_non_mapping_result
    (all_inputs : pydict) (n k : string) (r : value) :
  dict_lookup all_inputs (VStr n) = Some r ->
  (forall o results, r <> VDict o results) ->
  _construct all_inputs (VE (mk_E n k)) = Raise TypeError.
Proof.
  intros Hn Hr. rewrite _construct_E. unfold _construct_element. simpl.
  rewrite dict_getitem_str, Hn. simpl.
  destruct r as [| | | | |o xs|o xs|o entries]; try reflexivity.
  by destruct (Hr o entries).
Qed.

Lemma extractor_non_mapping_result_witness :
  _construct [(VStr "stepA", VList Builtin [VInt 1])] (VE (mk_E "stepA" "0")) =
    Raise TypeError /\
  _construct [(VStr "stepA", VNone)] (VE (mk_E "stepA" "a")) = Raise TypeError.
Proof.
  split.
  - apply (extractor_non_mapping_result _ "stepA" "0" (VList Builtin [VInt 1]));
      [reflexivity|discriminate].
  - apply (extractor_non_mapping_result _ "stepA" "a" VNone);
      [reflexivity|discriminate].
Defined.

Lemma dict_comp_prefix {A} (f : A -> result value) pre rest rs acc :
  Forall2 (fun e r => f e.1 = Ok r.1 /\ f e.2 = Ok r.2) pre rs ->
  Forall (fun r => hashable r.1 = true) rs ->
  dict_comp f (pre ++ rest) acc = dict_comp f rest (store_all acc rs).
Proof.
  intros H. revert acc.
  induction H as [|[k v] [k' v'] pre rs [Hk Hv] _ IH]; intros acc Hh; [done|].
  apply Forall_cons in Hh as [Hh1 Hh]. simpl in *.
  rewrite Hk, Hv. simpl. unfold dict_setitem. rewrite Hh1. simpl. by apply IH.
Qed.

(** X6: a dict recipe raises [TypeError] at the first entry whose key
    resolves to a value that cannot be hashed (a list, a dict, a tuple
    holding one), when the entries before it went in and the entry's value
    resolves. *)
Theorem dict_recipe_unhashable_key_raises
    (all_inputs : pydict) (pre post : pydict) (rs : list (value * value))
    (k v k' v' : value) :
  Forall2 (fun e r => _construct all_inputs e.1 = Ok r.1 /\
                      _construct all_inputs e.2 = Ok r.2) pre rs ->
  Forall (fun r => hashable r.1 = true) rs ->
  _construct all_inputs k = Ok k' ->
  _construct all_inputs v = Ok v' ->
  hashable k' = false ->
  _construct all_inputs (VDict Builtin (pre ++ (k, v) :: post)) =
    Raise TypeError.
Proof.
  intros Hpre Hh Hk Hv Hk'.
  rewrite _construct_dict_eq. unfold _construct_dict.
  rewrite (dict_comp_prefix _ pre _ rs [] Hpre Hh). simpl.
  rewrite Hk, Hv. simpl. unfold dict_setitem. by rewrite Hk'.
Qed.

Lemma dict_recipe_unhashable_key_raises_witness :
  let all_inputs :=
    [(VStr "s", VDict Builtin [(VStr "names", VList Builtin [VStr "a"]);
                               (VStr "n", VInt 3)])] in
  _construct all_inputs
    (VDict Builtin ([(VStr "size", VE (mk_E "s" "n"))] ++
                    (VTuple Builtin [VInt 0; VE (mk_E "s" "names")], VNone) ::
                    [(VStr "later", VE (mk_E "gone" "k"))])) =
    Raise TypeError.
Proof.
  intros all_inputs.
  apply (dict_recipe_unhashable_key_raises all_inputs
           [(VStr "size", VE (mk_E "s" "n"))]
           [(VStr "later", VE (mk_E "gone" "k"))]
           [(VStr "size", VInt 3)]
           (VTuple Builtin [VInt 0; VE (mk_E "s" "names")]) VNone
           (VTuple Builtin [VInt 0; VList Builtin [VStr "a"]]) VNone);
    [repeat constructor|repeat constructor|reflexivity|reflexivity|reflexivity].
Defined.



Lemma forallb_Forall {A} (f : A -> bool) l :
  forallb f l = true -> Forall (fun x => f x = true) l.
Proof.
  induction l as [|x l IH]; simpl; [constructor|].
  intros [Hx Hl]%andb_true_iff. constructor; auto.
Qed.

(** Storing the entries of a well-formed dict, none of whose keys is
    there yet, appends them as they are. *)
Lemma store_all_wf acc d :
  dict_wf d = true ->
  Forall (fun e => Forall (fun a => key_eqb a.1 e.1 = false) acc) d ->
  store_all acc d = acc ++ d.
Proof.
  revert acc. induction d as [|[k v] d IH]; intros acc Hwf Hacc.
  - by rewrite app_nil_r.
  - apply dict_wf_cons in Hwf as (_ & Hk & Hwf).
    apply Forall_cons in Hacc as [Hacc1 Hacc]. simpl in *.
    rewrite dict_store_new by by apply existsb_key_false.
    fold (store_all (acc ++ [(k, v)]) d). rewrite IH, <- app_assoc; [done..|].
    rewrite Forall_forall in Hacc, Hk |- *. intros e He.
    apply Forall_app. split; [by apply Hacc|].
    constructor; [|constructor]. simpl. rewrite key_eqb_sym. by apply Hk.
Qed.

(** X8: a recipe that reaches no extractor resolves to itself under every
    [all_inputs]: constants nested in tuples, lists and dicts, at any depth,
    pass through, and a dict recipe keeps its entries and their order. *)
Theorem extractor_free_recipe_resolves_to_itself
    (all_inputs : pydict) (recipe : value) :
  extractors recipe = [] ->
  value_wf recipe = true ->
  _construct all_inputs recipe = Ok recipe.
Proof.
  induction recipe as [| | | |x|o xs IH|o xs IH|o es IH]
    using value_nested_ind; intros Hex Hwf; try reflexivity.
  - discriminate.
  - destruct o; [|reflexivity..]. simpl in Hex, Hwf.
    apply concat_map_nil in Hex. apply forallb_Forall in Hwf.
    rewrite _construct_tuple_eq. unfold _construct_tuple.
    rewrite (list_comp_Forall2 _ xs xs); [done|].
    apply Forall_Forall2_diag.
    rewrite Forall_forall in IH, Hex, Hwf |- *. intros r Hr.
    apply IH; [done|by apply Hex|by apply Hwf].
  - destruct o; [|reflexivity..]. simpl in Hex, Hwf.
    apply concat_map_nil in Hex. apply forallb_Forall in Hwf.
    rewrite _construct_list_eq. unfold _construct_list.
    rewrite (list_comp_Forall2 _ xs xs); [done|].
    apply Forall_Forall2_diag.
    rewrite Forall_forall in IH, Hex, Hwf |- *. intros r Hr.
    apply IH; [done|by apply Hex|by apply Hwf].
  - destruct o; [|reflexivity..]. simpl in Hex, Hwf.
    apply concat_map_nil in Hex.
    apply andb_true_iff in Hwf as [Hd Hwf]. apply forallb_Forall in Hwf.
    rewrite _construct_dict_eq. unfold _construct_dict.
    rewrite (dict_comp_Forall2 _ es es []).
    + simpl. rewrite store_all_wf; [done..|].
      apply Forall_forall. intros; constructor.
    + apply Forall_Forall2_diag.
      rewrite Forall_forall in IH, Hex, Hwf |- *. intros kv Hkv.
      destruct (IH kv Hkv) as [IHk IHv].
      specialize (Hex kv Hkv). apply app_eq_nil in Hex as [Hk Hv].
      specialize (Hwf kv Hkv). apply andb_true_iff in Hwf as [Hwk Hwv].
      auto.
    + by apply dict_wf_hashable.
Qed.

Lemma extractor_free_recipe_resolves_to_itself_witness :
  let recipe :=
    VDict Builtin
      [(VStr "shape", VTuple Builtin [VInt 3; VInt 4]);
       (VTuple Builtin [VStr "a"; VInt 1], VList Builtin [VNone; VBool true]);
       (VInt 0, VDict Builtin [(VStr "inner", VStr "x")])] in
  _construct [] recipe = Ok recipe /\
  _construct [(VStr "shape", VDict Builtin [])] recipe = Ok recipe.
Proof.
  intros recipe.
  split; apply (extractor_free_recipe_resolves_to_itself _ recipe); reflexivity.
Defined.

(** * Further properties of [Adapter] *)

Lemma adapt_entries_Ok_inv inputs cfg acc u :
  (adapt_entries inputs cfg acc).1 = Ok u ->
  Forall (fun e => hashable e.1 = true /\
                   exists v, _construct inputs e.2 = Ok v) cfg.
Proof.
  revert acc. induction cfg as [|[name recipe] cfg IH]; intros acc; simpl.
  - constructor.
  - destruct (_construct inputs recipe) as [v|e] eqn:Hv; [|done].
    unfold dict_setitem. destruct (hashable name) eqn:Hh; [|done].
    intros H. constructor; [by eauto|]. by eapply IH.
Qed.

(** [adapt] on a well-formed configuration whose recipes all resolve. *)
Lemma adapt_ok (self : Adapter) (all_inputs : loc) (h : heap)
    (cfg inputs : pydict) :
  h !! adapting_recipes self = Some cfg ->
  h !! all_inputs = Some inputs ->
  dict_wf cfg = true ->
  Forall (fun e => exists v, _construct inputs e.2 = Ok v) cfg ->
  exists out inputs',
    adapt self all_inputs h =
      Some (Ok (fresh (dom h)),
            <[fresh (dom h) := out]> (<[all_inputs := inputs']> h)) /\
    Forall2 (fun e o => o.1 = e.1 /\ _construct inputs e.2 = Ok o.2) cfg out.
Proof.
  intros Hcfg Hin Hwf Hres.
  destruct (adapt_entries_ok inputs cfg [] Hwf Hres) as (outs & Hrun & Hall).
  { apply Forall_forall. intros; constructor. }
  destruct (adapt_eq self all_inputs h cfg inputs Hcfg Hin)
    as (inputs' & _ & _ & Heq).
  exists outs, inputs'. split; [|done]. rewrite Heq. by rewrite Hrun.
Qed.

(** Reading the adapted entries under a key of the configuration. *)
Lemma dict_lookup_resolved inputs (cfg out : pydict) k r :
  Forall2 (fun e o => o.1 = e.1 /\ _construct inputs e.2 = Ok o.2) cfg out ->
  dict_lookup cfg k = Some r ->
  exists v, dict_lookup out k = Some v /\ _construct inputs r = Ok v.
Proof.
  induction 1 as [|[k1 r1] [k2 v2] cfg out [Hk Hv] _ IH]; simpl in *; [done|].
  subst k2. destruct (key_eqb k1 k); [|done].
  intros [= <-]. eauto.
Qed.

Lemma Forall_dict_store_fst (Q : value -> Prop) d k v :
  Forall (fun e => Q e.1) d -> Q k -> Forall (fun e => Q e.1) (dict_store d k v).
Proof.
  intros Hd Hk. induction Hd as [|[k' v'] d Hk' Hd IH]; simpl.
  - by repeat constructor.
  - destruct (key_eqb k' k); by constructor.
Qed.

Lemma Forall_dict_store_snd (Q : value -> Prop) d k v :
  Forall (fun e => Q e.2) d -> Q v -> Forall (fun e => Q e.2) (dict_store d k v).
Proof.
  intros Hd Hv. induction Hd as [|[k' v'] d Hk' Hd IH]; simpl.
  - by repeat constructor.
  - destruct (key_eqb k' k); by constructor.
Qed.

(** A store on a well-formed dict leaves it well formed. *)
Lemma dict_store_wf d k v :
  dict_wf d = true -> hashable k = true -> dict_wf (dict_store d k v) = true.
Proof.
  intros Hwf Hk. induction d as [|[k' v'] d IH]; simpl dict_store.
  - apply dict_wf_cons. repeat split; [done|constructor].
  - apply dict_wf_cons in Hwf as (Hh & Hk' & Hwf).
    destruct (key_eqb k' k) eqn:Heq; apply dict_wf_cons.
    + done.
    + split; [done|]. split; [|by apply IH].
      apply (Forall_dict_store_fst (fun x => key_eqb x k' = false)); [done|].
      by rewrite key_eqb_sym.
Qed.

(** X9: [adapt] succeeds only when every recipe of the configuration
    resolved (and every argument name could be stored): a returned dict is
    never a partial adaptation. *)
Theorem adapt_returns_only_if_all_resolve
    (self : Adapter) (all_inputs : loc) (h h' : heap) (cfg inputs : pydict)
    (adapted : loc) :
  h !! adapting_recipes self = Some cfg ->
  h !! all_inputs = Some inputs ->
  adapt self all_inputs h = Some (Ok adapted, h') ->
  Forall (fun e => hashable e.1 = true /\
                   exists v, _construct inputs e.2 = Ok v) cfg.
Proof.
  intros Hcfg Hin.
  destruct (adapt_eq self all_inputs h cfg inputs Hcfg Hin)
    as (inputs' & _ & _ & ->).
  destruct (adapt_entries inputs cfg []).1 as [u|e] eqn:Hrun; [|done].
  intros _. by eapply adapt_entries_Ok_inv.
Qed.

Lemma adapt_returns_only_if_all_resolve_witness :
  let cfg := [(VStr "x", VE (mk_E "stepA" "a")); (VStr "c", VInt 7)] in
  let inputs := [(VStr "stepA", VDict Builtin [(VStr "a", VInt 1)])] in
  Forall (fun e => hashable e.1 = true /\
                   exists v, _construct inputs e.2 = Ok v) cfg.
Proof.
  intros cfg inputs.
  apply (adapt_returns_only_if_all_resolve {| adapting_recipes := 0 |} 1
           {[ 0 := cfg; 1 := inputs ]}
           (<[ 2 := [(VStr "x", VInt 1); (VStr "c", VInt 7)] ]>
              {[ 0 := cfg; 1 := inputs ]})
           cfg inputs 2); reflexivity.
Defined.

(** X10: two calls of [adapt] on the same [all_inputs], one after the
    other, end alike: both raise the same exception, or both return a dict,
    at two different addresses and with the same entries.  What the first
    call leaves behind (its dict, defaults stored in [all_inputs]) does not
    change what the second one yields.  The recipes and [all_inputs] are two
    objects. *)
Theorem adapt_twice
    (self : Adapter) (all_inputs : loc) (h : heap) (cfg inputs : pydict) :
  h !! adapting_recipes self = Some cfg ->
  h !! all_inputs = Some inputs ->
  adapting_recipes self <> all_inputs ->
  exists r1 h1 r2 h2,
    adapt self all_inputs h = Some (r1, h1) /\
    adapt self all_inputs h1 = Some (r2, h2) /\
    match r1, r2 with
    | Ok adapted1, Ok adapted2 =>
        adapted1 <> adapted2 /\
        is_Some (h2 !! adapted1) /\
        h2 !! adapted1 = h2 !! adapted2
    | Raise e1, Raise e2 => e1 = e2
    | _, _ => False
    end.
Proof.
  intros Hcfg Hin Halias.
  destruct (adapt_eq self all_inputs h cfg inputs Hcfg Hin)
    as (inputs1 & Hext1 & _ & Heq1).
  set (out := (adapt_entries inputs cfg []).2) in *.
  set (l1 := fresh (dom h)) in *.
  set (h1 := <[l1 := out]> (<[all_inputs := inputs1]> h)) in *.
  assert (l1 ∉ dom h) as Hl1 by apply is_fresh.
  assert (l1 <> all_inputs) as Hne1.
  { intros ->. apply Hl1, elem_of_dom. eauto. }
  assert (l1 <> adapting_recipes self) as Hne1'.
  { intros ->. apply Hl1, elem_of_dom. eauto. }
  assert (h1 !! adapting_recipes self = Some cfg) as Hcfg1.
  { unfold h1. by rewrite !lookup_insert_ne. }
  assert (h1 !! all_inputs = Some inputs1) as Hin1.
  { unfold h1. by rewrite lookup_insert_ne, lookup_insert_eq. }
  destruct (adapt_eq self all_inputs h1 cfg inputs1 Hcfg1 Hin1)
    as (inputs2 & Hext2 & _ & Heq2).
  rewrite (adapt_entries_extends inputs inputs1 cfg [] Hext1) in Heq2.
  fold out in Heq2.
  set (l2 := fresh (dom h1)) in *.
  assert (l2 ∉ dom h1) as Hl2 by apply is_fresh.
  assert (l1 <> l2) as Hne.
  { intros Heq. apply Hl2. rewrite <- Heq. unfold h1.
    apply elem_of_dom. rewrite lookup_insert_eq. eauto. }
  eexists _, _, _, _.
  split; [exact Heq1|]. split; [exact Heq2|].
  destruct (adapt_entries inputs cfg []).1; [|done].
  split; [done|].
  rewrite lookup_insert_ne, lookup_insert_eq by done.
  rewrite lookup_insert_ne by done.
  unfold h1. rewrite lookup_insert_eq. eauto.
Qed.

Lemma adapt_twice_witness :
  let cfg := [(VStr "x", VE (mk_E "stepA" "a")); (VStr "c", VInt 7)] in
  let inputs := [(VStr "stepA", VDict Builtin [(VStr "a", VInt 1)])] in
  let h : heap := {[ 0 := cfg; 1 := inputs ]} in
  exists r1 h1 r2 h2,
    adapt {| adapting_recipes := 0 |} 1 h = Some (r1, h1) /\
    adapt {| adapting_recipes := 0 |} 1 h1 = Some (r2, h2) /\
    match r1, r2 with
    | Ok adapted1, Ok adapted2 =>
        adapted1 <> adapted2 /\
        is_Some (h2 !! adapted1) /\
        h2 !! adapted1 = h2 !! adapted2
    | Raise e1, Raise e2 => e1 = e2
    | _, _ => False
    end.
Proof.
  intros cfg inputs h.
  apply (adapt_twice {| adapting_recipes := 0 |} 1 h cfg inputs);
    [reflexivity|reflexivity|discriminate].
Defined.




(** X12: the adapter does not copy the recipes it is built with.  An
    entry stored in that dict after the adapter was built is adapted like
    the others by a later [adapt]. *)
Theorem adapter_keeps_reference
    (recipes all_inputs : loc) (h : heap) (cfg inputs : pydict)
    (name recipe v : value) :
  h !! recipes = Some cfg ->
  h !! all_inputs = Some inputs ->
  recipes <> all_inputs ->
  dict_wf cfg = true ->
  Forall (fun e => exists v, _construct inputs e.2 = Ok v) cfg ->
  hashable name = true ->
  _construct inputs recipe = Ok v ->
  exists adapted out h',
    (do! self <- __init__ recipes;
     do! _ <- setitem recipes name recipe;
     adapt self all_inputs) h = Some (Ok adapted, h') /\
    h' !! adapted = Some out /\
    dict_lookup out name = Some v.
Proof.
  intros Hcfg Hin Hne Hwf Hres Hname Hv.
  set (cfg' := dict_store cfg name recipe).
  set (h1 := <[recipes := cfg']> h).
  destruct (adapt_ok {| adapting_recipes := recipes |} all_inputs h1
              cfg' inputs) as (out & inputs' & Hrun & Hall).
  - unfold h1. simpl. by rewrite lookup_insert_eq.
  - unfold h1. by rewrite lookup_insert_ne.
  - by apply dict_store_wf.
  - apply (Forall_dict_store_snd
             (fun r => exists v, _construct inputs r = Ok v)); eauto.
  - exists (fresh (dom h1)), out,
      (<[fresh (dom h1) := out]> (<[all_inputs := inputs']> h1)).
    split; [|split].
    + unfold bind at 1. unfold __init__, ret.
      unfold bind at 1. unfold setitem. rewrite Hcfg.
      unfold dict_setitem. rewrite Hname. exact Hrun.
    + by rewrite lookup_insert_eq.
    + destruct (dict_lookup_resolved inputs cfg' out name recipe Hall)
        as (v' & Hout & Hv').
      * unfold cfg'. by rewrite dict_lookup_store, key_eqb_refl.
      * rewrite Hout. congruence.
Qed.

Lemma adapter_keeps_reference_witness :
  let cfg := [(VStr "x", VE (mk_E "stepA" "a"))] in
  let inputs := [(VStr "stepA", VDict Builtin [(VStr "a", VInt 1);
                                               (VStr "b", VInt 2)])] in
  let h : heap := {[ 0 := cfg; 1 := inputs ]} in
  exists adapted out h',
    (do! self <- __init__ 0;
     do! _ <- setitem 0 (VStr "y") (VE (mk_E "stepA" "b"));
     adapt self 1) h = Some (Ok adapted, h') /\
    h' !! adapted = Some out /\
    dict_lookup out (VStr "y") = Some (VInt 2).
Proof.
  intros cfg inputs h.
  apply (adapter_keeps_reference 0 1 h cfg inputs
           (VStr "y") (VE (mk_E "stepA" "b")) (VInt 2));
    [reflexivity|reflexivity|discriminate|reflexivity| |reflexivity|reflexivity].
  repeat constructor; eexists; reflexivity.
Defined.

(** * The stores a resolution makes *)


(** X14: when the step's result is a mapping whose class defines
    [__missing__] and which lacks the key, the extractor resolves to the
    default and raises nothing; a mapping that stores defaults (a
    [defaultdict]) then holds the key, in [all_inputs]; one that does not (a
    [Counter]) leaves [all_inputs] as it is. *)
Theorem extractor_defaulting_mapping
    (all_inputs : pydict) (n k name : string) (f : factory) (stores : bool)
    (d : pydict) :
  dict_lookup all_inputs (VStr n) = Some (VDict (Defaulting name f stores) d) ->
  dict_lookup d (VStr k) = None ->
  _construct all_inputs (VE (mk_E n k)) = Ok (call_factory f) /\
  _construct_run (VE (mk_E n k)) all_inputs =
    (Ok (call_factory f),
     if stores
     then dict_store all_inputs (VStr n)
            (VDict (Defaulting name f stores)
                   (dict_store d (VStr k) (call_factory f)))
     else all_inputs).
Proof.
  intros Hn Hk. split.
  - rewrite _construct_E. unfold _construct_element. simpl.
    rewrite dict_getitem_str, Hn. simpl.
    by rewrite getitem_str_VDict, Hk.
  - change (_construct_run (VE (mk_E n k)))
      with (_construct_element_run (mk_E n k)).
    unfold _construct_element_run. simpl.
    unfold st_try_except_KeyError, st_bind, st_lookup_input,
      st_subscript_input, st_raise.
    rewrite dict_getitem_str, Hn. simpl.
    rewrite dict_getitem_str, Hk. simpl.
    destruct stores; [done|]. by rewrite (dict_store_same _ _ _ Hn).
Qed.

Lemma extractor_defaulting_mapping_witness :
  let groups := VDict (Defaulting "defaultdict" factory_list true)
                  [(VStr "a", VList Builtin [VInt 1])] in
  let counts := VDict (Defaulting "Counter" factory_int false)
                  [(VStr "a", VInt 3)] in
  let all_inputs := [(VStr "groups", groups); (VStr "counts", counts)] in
  (_construct all_inputs (VE (mk_E "groups" "b")) = Ok (VList Builtin []) /\
   _construct_run (VE (mk_E "groups" "b")) all_inputs =
     (Ok (VList Builtin []),
      [(VStr "groups",
        VDict (Defaulting "defaultdict" factory_list true)
          [(VStr "a", VList Builtin [VInt 1]); (VStr "b", VList Builtin [])]);
       (VStr "counts", counts)])) /\
  (_construct all_inputs (VE (mk_E "counts" "b")) = Ok (VInt 0) /\
   _construct_run (VE (mk_E "counts" "b")) all_inputs = (Ok (VInt 0), all_inputs)).
Proof.
  intros groups counts all_inputs. split.
  - apply (extractor_defaulting_mapping all_inputs "groups" "b" "defaultdict"
             factory_list true [(VStr "a", VList Builtin [VInt 1])]);
      reflexivity.
  - apply (extractor_defaulting_mapping all_inputs "counts" "b" "Counter"
             factory_int false [(VStr "a", VInt 3)]); reflexivity.
Defined.


